(** * result-ts: the Kotlin [Result] type for TypeScript

    A shallow embedding of [Failure.ts], [Result.ts], [utils.ts] and the
    [Function.prototype.runCatching] extension, and the properties of the
    outcome type that the specification states.

    JavaScript objects have identity and live in a heap; functions passed
    by the caller may throw and may have effects.  The embedding is
    therefore monadic: a computation takes a machine state (the heap and a
    log of the callback invocations made by the library) and gives back a
    completion (normal or abrupt) and the next state. *)

From Stdlib Require Import ZArith String List Bool Lia.
From stdpp Require Import base numbers option list strings.
Import ListNotations.

Set Default Proof Using "Type".

(** ** Values and objects *)

Abbreviation loc := nat (only parsing).

(** The runtime values the library can be handed.  Numbers are the integers
    and NaN (no fractions, no infinities, one zero); bigints and symbols
    are left out.  An object value is a reference into the heap, so that
    [===] on objects is equality of references. *)
Inductive JsValue : Type :=
| VUndefined
| VNull
| VBool (b : bool)
| VNumber (n : Z)
| VNaN
| VString (s : string)
| VRef (l : loc).

(** Heap objects, by class.  [OFailure] is an instance of the marker class
    [Failure] with its field [exception]; [OResult] is an instance of
    [Result] with its private field [value]; [OError] is an [Error] with
    its [message]; [OObject] is any other object. *)
Inductive Obj : Type :=
| OFailure (exception : JsValue)
| OResult (value : JsValue)
| OError (message : string)
| OObject (props : list (string * JsValue)).

(** The parameter through which the library calls back into caller code. *)
Inductive Callee : Type :=
| fn_callback      (* runCatching(callback) *)
| fn_this          (* Function.prototype.runCatching: this() *)
| fn_transform     (* map, mapCatching, recover, recoverCatching *)
| fn_action        (* onSuccess, onFailure *)
| fn_onSuccess     (* fold *)
| fn_onFailure.    (* fold, getOrElse *)

Record CallEvent : Type := { callee : Callee; arguments : list JsValue }.

Record State : Type := { heap : list Obj; calls : list CallEvent }.

#[global] Instance JsValue_eq_dec : EqDecision JsValue.
Proof. solve_decision. Defined.

#[global] Instance Obj_eq_dec : EqDecision Obj.
Proof. solve_decision. Defined.

(** ToBoolean *)
Definition truthy (v : JsValue) : bool :=
  match v with
  | VUndefined | VNull => false
  | VBool b => b
  | VNumber n => negb (n =? 0)%Z
  | VNaN => false
  | VString s => match s with EmptyString => false | String _ _ => true end
  | VRef _ => true
  end.

(** [a === b]: the same value, except that NaN is not equal to anything,
    itself included. *)
Definition strict_equals (a b : JsValue) : bool :=
  match a, b with
  | VNaN, _ | _, VNaN => false
  | _, _ => bool_decide (a = b)
  end.

(** ** Completions and the machine monad *)

Inductive Completion (A : Type) : Type :=
| Normal (a : A)
| Throw (e : JsValue).
Arguments Normal {A} a.
Arguments Throw {A} e.

Definition M (A : Type) : Type := State -> Completion A * State.

Definition ret {A} (a : A) : M A := fun st => (Normal a, st).

Definition throw {A} (e : JsValue) : M A := fun st => (Throw e, st).

Definition bind {A B} (m : M A) (k : A -> M B) : M B :=
  fun st =>
    match m st with
    | (Normal a, st') => k a st'
    | (Throw e, st') => (Throw e, st')
    end.

(** [try { body } catch (e) { handler }] *)
Definition try_catch {A} (body : M A) (handler : JsValue -> M A) : M A :=
  fun st =>
    match body st with
    | (Normal a, st') => (Normal a, st')
    | (Throw e, st') => handler e st'
    end.

Declare Scope js_scope.
Delimit Scope js_scope with js.
Notation "x <- m ;; k" := (bind m (fun x => k))
  (at level 100, m at next level, right associativity) : js_scope.
Notation "m ;;; k" := (bind m (fun _ => k))
  (at level 100, right associativity) : js_scope.
Local Open Scope js_scope.

(** *** Heap primitives *)

(** [new C(...)]: the object gets the next free reference. *)
Definition alloc (o : Obj) : M loc :=
  fun st => (Normal (length (heap st)),
             {| heap := heap st ++ [o]; calls := calls st |}).

Definition read {A} (f : list Obj -> A) : M A :=
  fun st => (Normal (f (heap st)), st).

(** [v instanceof Failure] *)
Definition is_Failure_instance (h : list Obj) (v : JsValue) : bool :=
  match v with
  | VRef l => match h !! l with Some (OFailure _) => true | _ => false end
  | _ => false
  end.

(** [this.value] on a [Result]; a property that is absent reads as
    [undefined]. *)
Definition field_value (h : list Obj) (this : loc) : JsValue :=
  match h !! this with Some (OResult v) => v | _ => VUndefined end.

(** [v.exception] on a [Failure] *)
Definition field_exception (h : list Obj) (v : JsValue) : JsValue :=
  match v with
  | VRef l => match h !! l with Some (OFailure e) => e | _ => VUndefined end
  | _ => VUndefined
  end.

Definition instanceof_Failure (v : JsValue) : M bool :=
  read (fun h => is_Failure_instance h v).

Definition get_value (this : loc) : M JsValue :=
  read (fun h => field_value h this).

Definition get_exception (v : JsValue) : M JsValue :=
  read (fun h => field_exception h v).

(** *** Functions of the caller *)

(** A function value as the library sees it. *)
Definition Fn0 : Type := M JsValue.
Definition Fn1 : Type := JsValue -> M JsValue.

(** Code of the caller: it may read and write the heap, return or throw;
    it has no access to the log of invocations. *)
Definition UserFn0 : Type := list Obj -> Completion JsValue * list Obj.
Definition UserFn1 : Type := JsValue -> UserFn0.

Definition user0 (f : UserFn0) : Fn0 :=
  fun st => let (c, h') := f (heap st) in (c, {| heap := h'; calls := calls st |}).

Definition user1 (f : UserFn1) : Fn1 := fun a => user0 (f a).

(** A transform without effects. *)
Definition pure1 (f : JsValue -> JsValue) : UserFn1 := fun a h => (Normal (f a), h).

(** [err => { throw err }] *)
Definition rethrow : UserFn1 := fun err h => (Throw err, h).

Definition log_call (who : Callee) (args : list JsValue) : M unit :=
  fun st => (Normal tt,
             {| heap := heap st;
                calls := calls st ++ [{| callee := who; arguments := args |}] |}).

(** [f()] and [f(a)], recorded in the log. *)
Definition call0 (who : Callee) (f : Fn0) : M JsValue :=
  log_call who [] ;;; f.

Definition call1 (who : Callee) (f : Fn1) (a : JsValue) : M JsValue :=
  log_call who [a] ;;; f a.

(** ** Failure.ts *)

(** [new Failure(exception)] *)
Definition new_Failure (exception : JsValue) : M JsValue :=
  l <- alloc (OFailure exception) ;; ret (VRef l).

(** [Failure.equals(other)] *)
Definition Failure_equals (this : JsValue) (other : JsValue) : M bool :=
  b <- instanceof_Failure other ;;
  if b then
    e1 <- get_exception other ;;
    e2 <- get_exception this ;;
    ret (strict_equals e1 e2)
  else ret false.

Definition createFailure (exception : JsValue) : M JsValue :=
  new_Failure exception.

(** ** Result.ts *)

(** [new Result(value)]; the constructor freezes the object. *)
Definition new_Result (value : JsValue) : M loc :=
  alloc (OResult value).

Definition Result_isFailure (this : loc) : M bool :=
  v <- get_value this ;; instanceof_Failure v.

Definition Result_isSuccess (this : loc) : M bool :=
  b <- Result_isFailure this ;; ret (negb b).

Definition Result_getOrNull (this : loc) : M JsValue :=
  b <- Result_isSuccess this ;;
  if b then get_value this else ret VNull.

Definition Result_exceptionOrNull (this : loc) : M JsValue :=
  v <- get_value this ;;
  b <- instanceof_Failure v ;;
  if b then get_exception v else ret VNull.

Definition Result_throwOnFailure (this : loc) : M JsValue :=
  v <- get_value this ;;
  b <- instanceof_Failure v ;;
  if b then e <- get_exception v ;; throw e else ret VUndefined.

Definition Result_getOrThrow (this : loc) : M JsValue :=
  Result_throwOnFailure this ;;;
  get_value this.

Definition Result_getOrElse (this : loc) (onFailure : Fn1) : M JsValue :=
  b <- Result_isFailure this ;;
  if b then e <- Result_exceptionOrNull this ;; call1 fn_onFailure onFailure e
  else get_value this.

Definition Result_getOrDefault (this : loc) (defaultValue : JsValue) : M JsValue :=
  b <- Result_isFailure this ;;
  if b then ret defaultValue else get_value this.

Definition Result_fold (this : loc) (onSuccess onFailure : Fn1) : M JsValue :=
  b <- Result_isSuccess this ;;
  if b then v <- get_value this ;; call1 fn_onSuccess onSuccess v
  else e <- Result_exceptionOrNull this ;; call1 fn_onFailure onFailure e.

(** The default of the parameter: [value: T | null = null]. *)
Definition default_null (value : JsValue) : JsValue :=
  match value with VUndefined => VNull | v => v end.

Definition Result_success (value : JsValue) : M loc :=
  new_Result (default_null value).

Definition Result_failure (exception : JsValue) : M loc :=
  f <- createFailure exception ;; new_Result f.

Definition Result_map (this : loc) (transform : Fn1) : M loc :=
  b <- Result_isSuccess this ;;
  if b then
    v <- get_value this ;; r <- call1 fn_transform transform v ;; Result_success r
  else
    e <- Result_exceptionOrNull this ;; Result_failure e.

(** ** utils.ts *)

Definition runCatching (callback : Fn0) : M loc :=
  try_catch (r <- call0 fn_callback callback ;; Result_success r)
            (fun e => Result_failure e).

(** ** The extension of [Function.prototype] *)

Definition Function_prototype_runCatching (this : Fn0) : M loc :=
  try_catch (r <- call0 fn_this this ;; Result_success r)
            (fun e => Result_failure e).

(** ** Result.ts, continued *)

Definition Result_mapCatching (this : loc) (transform : Fn1) : M loc :=
  b <- Result_isSuccess this ;;
  if b then
    runCatching (v <- get_value this ;; call1 fn_transform transform v)
  else
    e <- Result_exceptionOrNull this ;; Result_failure e.

Definition Result_recover (this : loc) (transform : Fn1) : M loc :=
  exception <- Result_exceptionOrNull this ;;
  if truthy exception then
    r <- call1 fn_transform transform exception ;; Result_success r
  else ret this.

Definition Result_recoverCatching (this : loc) (transform : Fn1) : M loc :=
  exception <- Result_exceptionOrNull this ;;
  if truthy exception then
    runCatching (call1 fn_transform transform exception)
  else ret this.

Definition Result_onFailure (this : loc) (action : Fn1) : M loc :=
  b <- Result_isFailure this ;;
  (if b then e <- Result_exceptionOrNull this ;; call1 fn_action action e
   else ret VUndefined) ;;;
  ret this.

Definition Result_onSuccess (this : loc) (action : Fn1) : M loc :=
  b <- Result_isSuccess this ;;
  (if b then v <- get_value this ;; call1 fn_action action v
   else ret VUndefined) ;;;
  ret this.

(** The state after the library has called a function of the caller with
    [args], and that function has left the heap [h']. *)
Definition after_call (who : Callee) (args : list JsValue) (h' : list Obj)
    (st : State) : State :=
  {| heap := h';
     calls := calls st ++ [{| callee := who; arguments := args |}] |}.

(** ** What a caller can observe of an outcome *)

Record Observation : Type := {
  obs_isSuccess : Completion bool;
  obs_isFailure : Completion bool;
  obs_valueOrNull : Completion JsValue;
  obs_errorOrNull : Completion JsValue
}.

Definition observe (this : loc) (st : State) : Observation :=
  {| obs_isSuccess := fst (Result_isSuccess this st);
     obs_isFailure := fst (Result_isFailure this st);
     obs_valueOrNull := fst (Result_getOrNull this st);
     obs_errorOrNull := fst (Result_exceptionOrNull this st) |}.

(** The outcome a computation hands back, as its caller sees it: what the
    four observers answer on the returned [Result], or the error that was
    thrown instead. *)
Definition outcome_of (x : Completion loc * State) : Completion Observation :=
  match x with
  | (Normal r, st) => Normal (observe r st)
  | (Throw e, _) => Throw e
  end.

Definition same_outcome (x y : Completion loc * State) : Prop :=
  outcome_of x = outcome_of y.

(** [this] is a success holding [v], resp. a failure holding [e], by the
    answers of the class's own observers. *)
Definition success_outcome (st : State) (this : loc) (v : JsValue) : Prop :=
  Result_isSuccess this st = (Normal true, st) /\
  Result_getOrNull this st = (Normal v, st).

Definition failure_outcome (st : State) (this : loc) (e : JsValue) : Prop :=
  Result_isFailure this st = (Normal true, st) /\
  Result_exceptionOrNull this st = (Normal e, st).

Definition empty_state : State := {| heap := []; calls := [] |}.

(** ** The properties of the specification, as it words them *)

(** [success(v)] answers [isSuccess = true], [isFailure = false],
    [valueOrNull() = v] and [errorOrNull() = null]. *)
Definition success_observed (v : JsValue) (st : State) : Prop :=
  exists r st',
    Result_success v st = (Normal r, st') /\
    Result_isSuccess r st' = (Normal true, st') /\
    Result_isFailure r st' = (Normal false, st') /\
    Result_getOrNull r st' = (Normal v, st') /\
    Result_exceptionOrNull r st' = (Normal VNull, st').

(** [success(v).map(f)] is the outcome [success(f(v))]. *)
Definition map_on_success (f : JsValue -> JsValue) (v : JsValue) (st : State) : Prop :=
  exists r st1,
    Result_success v st = (Normal r, st1) /\
    same_outcome (Result_map r (user1 (pure1 f)) st1) (Result_success (f v) st1).

(** [failure(e).map(f)] is a failure holding [e], and [f] was not called. *)
Definition map_on_failure (f : UserFn1) (e : JsValue) (st : State) : Prop :=
  exists r st1 r' st2,
    Result_failure e st = (Normal r, st1) /\
    Result_map r (user1 f) st1 = (Normal r', st2) /\
    failure_outcome st2 r' e /\
    calls st2 = calls st.

(** [failure(e).recover(g)] is the outcome [success(g(e))]. *)
Definition recover_on_failure (g : UserFn1) (e : JsValue) (st : State) : Prop :=
  exists r st1,
    Result_failure e st = (Normal r, st1) /\
    same_outcome (Result_recover r (user1 g) st1)
                 ((x <- user1 g e ;; Result_success x) st1).

(** ** The interface of the class, as steps of a client program *)

Inductive Op : Type :=
| op_isSuccess
| op_isFailure
| op_getOrNull
| op_exceptionOrNull
| op_throwOnFailure
| op_getOrThrow
| op_getOrElse (onFailure : Fn1)
| op_getOrDefault (defaultValue : JsValue)
| op_fold (onSuccess onFailure : Fn1)
| op_map (transform : Fn1)
| op_mapCatching (transform : Fn1)
| op_recover (transform : Fn1)
| op_recoverCatching (transform : Fn1)
| op_onFailure (action : Fn1)
| op_onSuccess (action : Fn1).

Definition of_bool (m : M bool) : M JsValue := b <- m ;; ret (VBool b).
Definition of_ref (m : M loc) : M JsValue := l <- m ;; ret (VRef l).

Definition run_op (this : loc) (op : Op) : M JsValue :=
  match op with
  | op_isSuccess => of_bool (Result_isSuccess this)
  | op_isFailure => of_bool (Result_isFailure this)
  | op_getOrNull => Result_getOrNull this
  | op_exceptionOrNull => Result_exceptionOrNull this
  | op_throwOnFailure => Result_throwOnFailure this
  | op_getOrThrow => Result_getOrThrow this
  | op_getOrElse onFailure => Result_getOrElse this onFailure
  | op_getOrDefault d => Result_getOrDefault this d
  | op_fold onSuccess onFailure => Result_fold this onSuccess onFailure
  | op_map transform => of_ref (Result_map this transform)
  | op_mapCatching transform => of_ref (Result_mapCatching this transform)
  | op_recover transform => of_ref (Result_recover this transform)
  | op_recoverCatching transform => of_ref (Result_recoverCatching this transform)
  | op_onFailure action => of_ref (Result_onFailure this action)
  | op_onSuccess action => of_ref (Result_onSuccess this action)
  end.

(** A step of the client: a method call on some outcome, one of the static
    factories, one of the two forms of [runCatching], or code of its own. *)
Inductive Step : Type :=
| step_method (this : loc) (op : Op)
| step_success (value : JsValue)
| step_failure (exception : JsValue)
| step_runCatching (callback : Fn0)
| step_bound_runCatching (this : Fn0)
| step_client (code : Fn0).

Definition run_step (s : Step) : M JsValue :=
  match s with
  | step_method this op => run_op this op
  | step_success v => of_ref (Result_success v)
  | step_failure e => of_ref (Result_failure e)
  | step_runCatching callback => of_ref (runCatching callback)
  | step_bound_runCatching this => of_ref (Function_prototype_runCatching this)
  | step_client code => code
  end.

(** The client goes on after each step, whether it returned or threw. *)
Fixpoint run_steps (steps : list Step) (st : State) : State :=
  match steps with
  | [] => st
  | s :: rest => run_steps rest (snd (run_step s st))
  end.

(** *** Heaps in which the objects the observers read are untouched

    [heap_preserved h h']: every object of [h] is in [h'] with its class,
    and the [Result] objects and the [Failure] markers among them are
    unchanged. *)







(** ** Concrete inputs *)

(** The heap after [new Failure(new Error("boom"))]: the error is object 0
    and the marker that wraps it is object 1. *)
Definition marker_state : State :=
  {| heap := [OError "boom"; OFailure (VRef 0)]; calls := [] |}.

(** The heap after [failure(null)]: the marker is object 0 and the outcome
    is object 1. *)
Definition null_failure_state : State :=
  {| heap := [OFailure VNull; OResult (VRef 0)]; calls := [] |}.

(** The heap after [success(1)] and [failure(new Error("boom"))]: the success
    is object 0, the error object 1, its marker object 2 and the failure
    object 3. *)
Definition two_outcomes_state : State :=
  {| heap := [OResult (VNumber 1); OError "boom"; OFailure (VRef 1);
              OResult (VRef 2)];
     calls := [] |}.

(** [e.message = m] on an [Error]: code of the caller that writes to an
    object that is neither frozen nor read-only. *)
Definition set_message (l : loc) (m : string) : UserFn0 :=
  fun h =>
    match h !! l with
    | Some (OError _) => (Normal VUndefined, <[l := OError m]> h)
    | _ => (Normal VUndefined, h)
    end.

(** A client program over [two_outcomes_state]: it maps, unwraps and
    recovers the failure (object 3), rewrites the message of the captured
    error, builds further outcomes, and chains on the success (object 0). *)
Definition sample_steps : list Step :=
  [ step_method 3 (op_map (user1 (pure1 (fun _ => VNumber 7))));
    step_method 3 op_getOrThrow;
    step_client (user0 (set_message 1 "changed"));
    step_method 3 (op_recoverCatching (user1 rethrow));
    step_success (VRef 2);
    step_failure VNull;
    step_method 0 (op_onSuccess (user1 rethrow));
    step_runCatching (user0 (set_message 1 "again"));
    step_method 3 (op_fold (user1 rethrow) (user1 (pure1 (fun x => x))));
    step_method 3 op_exceptionOrNull ].

(** ** Calls into code of the caller, and results up to the log *)

(** What the library gets when it calls the caller's [f] on [a] through the
    parameter [who]: the completion of [f], its heap, and one more entry in
    the log. *)
Definition run_user (who : Callee) (f : UserFn1) (a : JsValue) (st : State)
    : Completion JsValue * State :=
  let (c, h') := f a (heap st) in (c, after_call who [a] h' st).

(** The completion and the heap of a run: all of it but the log. *)
Definition result_of {A} (x : Completion A * State) : Completion A * list Obj :=
  (fst x, heap (snd x)).

(** [() => r] and [() => { throw e }] *)
Definition returns (r : JsValue) : UserFn0 := fun h => (Normal r, h).
Definition throws (e : JsValue) : UserFn0 := fun h => (Throw e, h).

(** What [getOrThrow] gives back for a completion captured by
    [runCatching]: a returned [undefined] has become [null]. *)
Definition recaptured (c : Completion JsValue) : Completion JsValue :=
  match c with
  | Normal r => Normal (default_null r)
  | Throw e => Throw e
  end.


(** ** Exceptions and payloads over the whole interface *)

(** A computation that returns normally from every state. *)
Definition completes {A} (m : M A) : Prop :=
  forall st, exists a st', m st = (Normal a, st').

(** No [Result] in the heap holds [undefined]. *)
Definition payloads_defined (h : list Obj) : Prop :=
  forall l v, h !! l = Some (OResult v) -> v <> VUndefined.

Definition keeps_payloads {A} (m : M A) : Prop :=
  forall st, payloads_defined (heap st) -> payloads_defined (heap (snd (m st))).

(** Every function that the step hands to the library satisfies [P],
    whatever it is applied to. *)
Definition op_callbacks (P : Fn0 -> Prop) (op : Op) : Prop :=
  match op with
  | op_getOrElse f | op_map f | op_mapCatching f | op_recover f
  | op_recoverCatching f | op_onFailure f | op_onSuccess f =>
      forall a, P (f a)
  | op_fold f g => (forall a, P (f a)) /\ (forall a, P (g a))
  | _ => True
  end.

Definition step_callbacks (P : Fn0 -> Prop) (s : Step) : Prop :=
  match s with
  | step_method _ op => op_callbacks P op
  | step_runCatching f | step_bound_runCatching f | step_client f => P f
  | _ => True
  end.

(** The two methods whose purpose is to throw. *)
Definition rethrows (op : Op) : bool :=
  match op with
  | op_throwOnFailure | op_getOrThrow => true
  | _ => false
  end.

(** ** Code of the caller, written against the heap

    What code outside the class can do to objects: create them, inspect
    them, assign to their fields, return, throw and catch.  [private],
    [protected] and [readonly] are checked by the compiler only, so a
    script may read the payload of a [Result], assign to the [exception]
    of a marker and construct a [Result]; [Object.freeze] is enforced when
    the code runs, so assigning to a field of a [Result] fails. *)

Inductive Script : Type :=
| sReturn (v : JsValue)
| sThrow (e : JsValue)
| sNew (o : Obj) (k : loc -> Script)
| sRead (l : loc) (k : option Obj -> Script)
| sWrite (l : loc) (field : string) (v : JsValue) (k : Script)
| sTry (body : Script) (handler : JsValue -> Script).

(** [o.field = v]: the object afterwards, or [None] where the object is
    frozen.  Of the properties of an object the model follows only the
    [exception] of a marker, the [message] of an error when it is a
    string, and the properties of a plain object. *)
Definition assign (o : Obj) (field : string) (v : JsValue) : option Obj :=
  match o with
  | OResult _ => None
  | OFailure e =>
      Some (if String.eqb field "exception" then OFailure v else OFailure e)
  | OError m =>
      Some (match v with
            | VString m' => if String.eqb field "message" then OError m' else OError m
            | _ => OError m
            end)
  | OObject props => Some (OObject ((field, v) :: props))
  end.

(** An assignment to a frozen object throws a [TypeError] in strict code
    and is ignored otherwise. *)
Fixpoint run_script (strict : bool) (s : Script) (h : list Obj)
    : Completion JsValue * list Obj :=
  match s with
  | sReturn v => (Normal v, h)
  | sThrow e => (Throw e, h)
  | sNew o k => run_script strict (k (length h)) (h ++ [o])
  | sRead l k => run_script strict (k (h !! l)) h
  | sWrite l field v k =>
      match h !! l with
      | Some o =>
          match assign o field v with
          | Some o' => run_script strict k (<[l := o']> h)
          | None =>
              if strict then (Throw (VRef (length h)), h ++ [OError "TypeError"])
              else run_script strict k h
          end
      | None => run_script strict k h
      end
  | sTry body handler =>
      match run_script strict body h with
      | (Normal v, h') => (Normal v, h')
      | (Throw e, h') => run_script strict (handler e) h'
      end
  end.








(** A computation whose heap is always related to the one it started in. *)
Definition respects (R : list Obj -> list Obj -> Prop) {A} (m : M A) : Prop :=
  forall st, R (heap st) (heap (snd (m st))).


(** Every marker is as it was. *)
Definition markers_kept (h h' : list Obj) : Prop :=
  forall l e, h !! l = Some (OFailure e) -> h' !! l = Some (OFailure e).

Definition script_keeps_markers (strict : bool) (s : Script) : Prop :=
  forall h, markers_kept h (snd (run_script strict s h)).






(** * Proofs *)

(** ** The heap under allocation *)

Lemma lookup_snoc_new (h : list Obj) (o : Obj) : (h ++ [o]) !! length h = Some o.
Proof. rewrite lookup_app_r by lia. by rewrite Nat.sub_diag. Qed.

Lemma lookup_snoc_old (h : list Obj) (o x : Obj) (l : nat) :
  h !! l = Some x -> (h ++ [o]) !! l = Some x.
Proof. intros H. by apply lookup_app_l_Some. Qed.

Lemma lookup_snoc_inv (h : list Obj) (o x : Obj) (l : nat) :
  (h ++ [o]) !! l = Some x -> h !! l = Some x \/ (l = length h /\ x = o).
Proof.
  intros H. apply lookup_app_Some in H as [H | [Hl H]]; [by left | right].
  destruct (l - length h) as [|k] eqn:E; simpl in H; [|by destruct k].
  split; [lia | congruence].
Qed.

(** Creating a [Result] turns no value into a [Failure] instance. *)
Lemma is_Failure_instance_snoc_Result (h : list Obj) (p v : JsValue) :
  is_Failure_instance (h ++ [OResult p]) v = is_Failure_instance h v.
Proof.
  destruct v as [| | | | | |l]; try reflexivity.
  unfold is_Failure_instance, field_exception.
  destruct (h !! l) as [x|] eqn:E.
  - by rewrite (lookup_snoc_old _ _ _ _ E).
  - destruct ((h ++ [OResult p]) !! l) as [y|] eqn:E'; [|done].
    apply lookup_snoc_inv in E' as [E' | [_ ->]]; [congruence | done].
Qed.

Lemma field_exception_snoc_Result (h : list Obj) (p v : JsValue) :
  field_exception (h ++ [OResult p]) v = field_exception h v.
Proof.
  destruct v as [| | | | | |l]; try reflexivity.
  unfold is_Failure_instance, field_exception.
  destruct (h !! l) as [x|] eqn:E.
  - by rewrite (lookup_snoc_old _ _ _ _ E).
  - destruct ((h ++ [OResult p]) !! l) as [y|] eqn:E'; [|done].
    apply lookup_snoc_inv in E' as [E' | [_ ->]]; [congruence | done].
Qed.

Lemma field_value_snoc_new (h : list Obj) (p : JsValue) :
  field_value (h ++ [OResult p]) (length h) = p.
Proof. unfold field_value. by rewrite lookup_snoc_new. Qed.

Lemma is_Failure_instance_new_Failure (h : list Obj) (e : JsValue) (o : Obj) :
  is_Failure_instance ((h ++ [OFailure e]) ++ [o]) (VRef (length h)) = true.
Proof.
  unfold is_Failure_instance, field_exception.
  by rewrite (lookup_snoc_old _ _ _ _ (lookup_snoc_new h (OFailure e))).
Qed.

Lemma field_exception_new_Failure (h : list Obj) (e : JsValue) (o : Obj) :
  field_exception ((h ++ [OFailure e]) ++ [o]) (VRef (length h)) = e.
Proof.
  unfold is_Failure_instance, field_exception.
  by rewrite (lookup_snoc_old _ _ _ _ (lookup_snoc_new h (OFailure e))).
Qed.

(** ** The observers read the heap and leave the state alone *)

Lemma isFailure_eq (this : loc) (st : State) :
  Result_isFailure this st =
  (Normal (is_Failure_instance (heap st) (field_value (heap st) this)), st).
Proof. reflexivity. Qed.

Lemma isSuccess_eq (this : loc) (st : State) :
  Result_isSuccess this st =
  (Normal (negb (is_Failure_instance (heap st) (field_value (heap st) this))), st).
Proof. reflexivity. Qed.

Lemma getOrNull_eq (this : loc) (st : State) :
  Result_getOrNull this st =
  (Normal (if is_Failure_instance (heap st) (field_value (heap st) this)
           then VNull else field_value (heap st) this), st).
Proof.
  unfold Result_getOrNull, bind. rewrite isSuccess_eq.
  by destruct (is_Failure_instance _ _).
Qed.

Lemma exceptionOrNull_eq (this : loc) (st : State) :
  Result_exceptionOrNull this st =
  (Normal (if is_Failure_instance (heap st) (field_value (heap st) this)
           then field_exception (heap st) (field_value (heap st) this)
           else VNull), st).
Proof.
  unfold Result_exceptionOrNull, bind, get_value, instanceof_Failure, read.
  by destruct (is_Failure_instance _ _).
Qed.

(** The two predicates on outcomes, in terms of the heap. *)
Lemma success_outcome_heap (st : State) (this : loc) (v : JsValue) :
  success_outcome st this v <->
  is_Failure_instance (heap st) (field_value (heap st) this) = false /\
  field_value (heap st) this = v.
Proof.
  unfold success_outcome. rewrite isSuccess_eq, getOrNull_eq.
  destruct (is_Failure_instance _ _); cbn; split; intros [H1 H2];
    by simplify_eq.
Qed.

Lemma failure_outcome_heap (st : State) (this : loc) (e : JsValue) :
  failure_outcome st this e <->
  is_Failure_instance (heap st) (field_value (heap st) this) = true /\
  field_exception (heap st) (field_value (heap st) this) = e.
Proof.
  unfold failure_outcome. rewrite isFailure_eq, exceptionOrNull_eq.
  destruct (is_Failure_instance _ _); cbn; split; intros [H1 H2];
    by simplify_eq.
Qed.

(** ** The factories *)

Lemma success_eq (v : JsValue) (st : State) :
  Result_success v st =
  (Normal (length (heap st)),
   {| heap := heap st ++ [OResult (default_null v)]; calls := calls st |}).
Proof. reflexivity. Qed.

Lemma failure_eq (e : JsValue) (st : State) :
  Result_failure e st =
  (Normal (S (length (heap st))),
   {| heap := (heap st ++ [OFailure e]) ++ [OResult (VRef (length (heap st)))];
      calls := calls st |}).
Proof.
  unfold Result_failure, createFailure, new_Failure, new_Result, alloc, bind, ret.
  simpl. by rewrite length_app, Nat.add_1_r.
Qed.

Lemma field_value_failure (h : list Obj) (e : JsValue) :
  field_value ((h ++ [OFailure e]) ++ [OResult (VRef (length h))]) (S (length h))
  = VRef (length h).
Proof.
  replace (S (length h)) with (length (h ++ [OFailure e]))
    by (rewrite length_app; simpl; lia).
  apply field_value_snoc_new.
Qed.

(** [failure(e)] is a failure holding [e], whatever [e] is. *)
Lemma failure_builds (e : JsValue) (st : State) :
  exists r st', Result_failure e st = (Normal r, st') /\
    failure_outcome st' r e /\ calls st' = calls st /\
    Result_isSuccess r st' = (Normal false, st') /\
    Result_getOrNull r st' = (Normal VNull, st').
Proof.
  eexists _, _. split; [apply failure_eq|].
  rewrite failure_outcome_heap, isSuccess_eq, getOrNull_eq. cbn [heap calls].
  rewrite field_value_failure, is_Failure_instance_new_Failure,
    field_exception_new_Failure. done.
Qed.

(** [success(v)] is a success holding [v], or [null] for [undefined], as
    long as [v] is not an instance of the marker class. *)
Lemma success_builds (v : JsValue) (st : State) :
  is_Failure_instance (heap st) v = false ->
  exists r st', Result_success v st = (Normal r, st') /\
    success_outcome st' r (default_null v) /\ calls st' = calls st /\
    heap st' = heap st ++ [OResult (default_null v)].
Proof.
  intros Hv. eexists _, _. split; [apply success_eq|].
  rewrite success_outcome_heap. cbn [heap calls].
  rewrite field_value_snoc_new, is_Failure_instance_snoc_Result.
  by destruct v.
Qed.

(** ** Classification of what the factories build *)

(** C1, as amended.  For every value [v] other than [undefined] that is not
    an instance of the marker class [Failure], the outcome built by
    [success(v)] answers [isSuccess = true], [isFailure = false],
    [getOrNull() = v] and [exceptionOrNull() = null]. *)
Theorem success_observers (v : JsValue) (st : State) :
  is_Failure_instance (heap st) v = false ->
  v <> VUndefined ->
  success_observed v st.
Proof.
  intros Hv Hu.
  destruct (success_builds v st Hv) as (r & st' & Hr & Hs & _ & _).
  replace (default_null v) with v in Hs by (by destruct v).
  exists r, st'. split; [exact Hr|].
  pose proof Hs as [Hs1 Hs2]. apply success_outcome_heap in Hs as [Hc Hp].
  rewrite isFailure_eq, exceptionOrNull_eq, Hc. done.
Qed.

Lemma success_observers_witness : success_observed (VNumber 42) empty_state.
Proof.
  apply (success_observers (VNumber 42) empty_state); [reflexivity | discriminate].
Defined.

(** C1 as stated fails at two values: a [Failure] instance handed to
    [success] is classified as a failure, and [success(undefined)] stores
    [null] because of the parameter's default. *)
Lemma success_observed_counterexample :
  ~ success_observed (VRef 1) marker_state /\
  ~ success_observed VUndefined empty_state.
Proof.
  split.
  - intros (r & st' & Hr & Hs & _). rewrite success_eq in Hr.
    injection Hr as <- <-. vm_compute in Hs. discriminate.
  - intros (r & st' & Hr & _ & _ & Hg & _). rewrite success_eq in Hr.
    injection Hr as <- <-. vm_compute in Hg. discriminate.
Qed.

(** [success(new Failure(e))] builds the very state that [failure(e)]
    builds. *)
Lemma success_of_marker_eq (e : JsValue) (st : State) :
  (f <- new_Failure e ;; Result_success f) st = Result_failure e st.
Proof. reflexivity. Qed.

(** C2.  For every error [e], the outcome [success(new Failure(e))] is
    classified as a failure: [isFailure] is [true], [isSuccess] is [false],
    [exceptionOrNull()] returns [e] and [getOrNull()] returns [null]. *)
Theorem success_of_marker_is_failure (e : JsValue) (st : State) :
  exists r st',
    (f <- new_Failure e ;; Result_success f) st = (Normal r, st') /\
    Result_isFailure r st' = (Normal true, st') /\
    Result_isSuccess r st' = (Normal false, st') /\
    Result_exceptionOrNull r st' = (Normal e, st') /\
    Result_getOrNull r st' = (Normal VNull, st').
Proof.
  destruct (failure_builds e st) as (r & st' & Hr & [Hf He] & _ & Hs & Hg).
  exists r, st'. by rewrite success_of_marker_eq.
Qed.

(** ** The safe-call boundary *)

(** Unfolds the monad and the methods down to the heap functions. *)
Ltac js_unfold :=
  cbv [ret throw bind try_catch alloc read log_call call0 call1 user0 user1
       pure1 rethrow instanceof_Failure get_value get_exception
       new_Failure createFailure new_Result
       Result_isFailure Result_isSuccess Result_getOrNull
       Result_exceptionOrNull Result_throwOnFailure Result_getOrThrow
       Result_getOrElse Result_getOrDefault Result_fold Result_success
       Result_failure Result_map runCatching Function_prototype_runCatching
       Result_mapCatching Result_recover Result_recoverCatching
       Result_onFailure Result_onSuccess after_call of_bool of_ref
       heap calls].

Lemma runCatching_eq (f : UserFn0) (st : State) :
  runCatching (user0 f) st =
  match f (heap st) with
  | (Normal r, h1) => Result_success r (after_call fn_callback [] h1 st)
  | (Throw e, h1) => Result_failure e (after_call fn_callback [] h1 st)
  end.
Proof.
  js_unfold. destruct st as [h cs]. by destruct (f h) as [[r|e] h1].
Qed.

Lemma bound_runCatching_eq (f : UserFn0) (st : State) :
  Function_prototype_runCatching (user0 f) st =
  match f (heap st) with
  | (Normal r, h1) => Result_success r (after_call fn_this [] h1 st)
  | (Throw e, h1) => Result_failure e (after_call fn_this [] h1 st)
  end.
Proof.
  js_unfold. destruct st as [h cs]. by destruct (f h) as [[r|e] h1].
Qed.

(** C3.  The free function [runCatching] and [Function.prototype.runCatching]
    agree on every zero-argument computation [f]: they return the same
    completion and leave the same heap, each calls [f] exactly once and
    nothing else, the result is [success(r)] when [f] returns [r] and
    [failure(e)] when [f] throws [e], and neither ever throws. *)
Theorem runCatching_forms_agree (f : UserFn0) (st : State) :
  let free := runCatching (user0 f) st in
  let bound := Function_prototype_runCatching (user0 f) st in
  (fst free = fst bound /\ heap (snd free) = heap (snd bound)) /\
  (calls (snd free) = calls st ++ [{| callee := fn_callback; arguments := [] |}] /\
   calls (snd bound) = calls st ++ [{| callee := fn_this; arguments := [] |}]) /\
  match f (heap st) with
  | (Normal r, h1) =>
      free = Result_success r (after_call fn_callback [] h1 st) /\
      bound = Result_success r (after_call fn_this [] h1 st)
  | (Throw e, h1) =>
      free = Result_failure e (after_call fn_callback [] h1 st) /\
      bound = Result_failure e (after_call fn_this [] h1 st)
  end /\
  (exists r, fst free = Normal r /\ fst bound = Normal r).
Proof.
  cbv zeta. rewrite runCatching_eq, bound_runCatching_eq.
  destruct (f (heap st)) as [[r|e] h1]; rewrite ?success_eq, ?failure_eq;
    cbn [fst snd heap calls after_call]; repeat split; eauto.
Qed.

(** ** The combinators, by the branch they take *)

Lemma observe_heap_only (r : loc) (st st' : State) :
  heap st = heap st' -> observe r st = observe r st'.
Proof.
  intros H. unfold observe.
  rewrite !isSuccess_eq, !isFailure_eq, !getOrNull_eq, !exceptionOrNull_eq.
  cbn [fst]. by rewrite H.
Qed.

Lemma map_eq (this : loc) (f : Fn1) (st : State) :
  Result_map this f st =
  if is_Failure_instance (heap st) (field_value (heap st) this)
  then Result_failure (field_exception (heap st) (field_value (heap st) this)) st
  else (r <- call1 fn_transform f (field_value (heap st) this) ;; Result_success r) st.
Proof.
  destruct st as [h cs]. js_unfold.
  destruct (is_Failure_instance h (field_value h this)) eqn:E;
    cbn [negb]; js_unfold; rewrite ?E; try reflexivity;
    by destruct (truthy (field_exception h (field_value h this))).
Qed.

Lemma mapCatching_eq (this : loc) (f : Fn1) (st : State) :
  Result_mapCatching this f st =
  if is_Failure_instance (heap st) (field_value (heap st) this)
  then Result_failure (field_exception (heap st) (field_value (heap st) this)) st
  else runCatching (call1 fn_transform f (field_value (heap st) this)) st.
Proof.
  destruct st as [h cs]. js_unfold.
  destruct (is_Failure_instance h (field_value h this)) eqn:E;
    cbn [negb]; js_unfold; rewrite ?E; try reflexivity;
    by destruct (truthy (field_exception h (field_value h this))).
Qed.

Lemma recover_eq (this : loc) (f : Fn1) (st : State) :
  Result_recover this f st =
  if is_Failure_instance (heap st) (field_value (heap st) this)
  then
    let e := field_exception (heap st) (field_value (heap st) this) in
    if truthy e then (r <- call1 fn_transform f e ;; Result_success r) st
    else (Normal this, st)
  else (Normal this, st).
Proof.
  destruct st as [h cs]. js_unfold.
  destruct (is_Failure_instance h (field_value h this)) eqn:E;
    cbn [negb]; js_unfold; rewrite ?E; try reflexivity;
    by destruct (truthy (field_exception h (field_value h this))).
Qed.

Lemma recoverCatching_eq (this : loc) (f : Fn1) (st : State) :
  Result_recoverCatching this f st =
  if is_Failure_instance (heap st) (field_value (heap st) this)
  then
    let e := field_exception (heap st) (field_value (heap st) this) in
    if truthy e then runCatching (call1 fn_transform f e) st
    else (Normal this, st)
  else (Normal this, st).
Proof.
  destruct st as [h cs]. js_unfold.
  destruct (is_Failure_instance h (field_value h this)) eqn:E;
    cbn [negb]; js_unfold; rewrite ?E; try reflexivity;
    by destruct (truthy (field_exception h (field_value h this))).
Qed.

(** A caller's function run under [runCatching] through a closure of the
    library, as [mapCatching] and [recoverCatching] do. *)
Lemma runCatching_call1 (f : UserFn1) (a : JsValue) (st : State) :
  runCatching (call1 fn_transform (user1 f) a) st =
  match f a (heap st) with
  | (Normal r, h1) =>
      Result_success r
        (after_call fn_transform [a] h1 (after_call fn_callback [] (heap st) st))
  | (Throw e, h1) =>
      Result_failure e
        (after_call fn_transform [a] h1 (after_call fn_callback [] (heap st) st))
  end.
Proof.
  destruct st as [h cs]. js_unfold. by destruct (f a h) as [[r|e] h1].
Qed.

(** C4, as amended.  For every pure transform [f] and every value [v] other
    than [undefined] that is not an instance of the marker class, [map(f)]
    on [success(v)] is the outcome [success(f(v))]; for every error [e] and
    every function [g], [map(g)] on [failure(e)] is a failure that holds
    the same [e], and [g] is not called. *)
Theorem map_spec (f : JsValue -> JsValue) (g : UserFn1) (v e : JsValue) (st : State) :
  is_Failure_instance (heap st) v = false ->
  v <> VUndefined ->
  map_on_success f v st /\ map_on_failure g e st.
Proof.
  intros Hv Hu. split.
  - destruct (success_builds v st Hv) as (r & st1 & Hr & Hs & _ & _).
    replace (default_null v) with v in Hs by (by destruct v).
    exists r, st1. split; [exact Hr|].
    apply success_outcome_heap in Hs as [Hc Hp].
    unfold same_outcome. rewrite map_eq, Hc, Hp.
    replace ((x <- call1 fn_transform (user1 (pure1 f)) v ;; Result_success x) st1)
      with (Result_success (f v) (after_call fn_transform [v] (heap st1) st1))
      by (by destruct st1).
    rewrite !success_eq. cbn [outcome_of]. f_equal.
    by apply observe_heap_only.
  - destruct (failure_builds e st) as (r & st1 & Hr & Hf & Hc & _ & _).
    destruct (failure_builds e st1) as (r' & st2 & Hr' & Hf' & Hc' & _ & _).
    exists r, st1, r', st2. split; [exact Hr|].
    apply failure_outcome_heap in Hf as [Hi He].
    rewrite map_eq, Hi, He. repeat split; try apply Hf'; congruence.
Qed.

Lemma map_spec_witness :
  map_on_success (fun _ => VNumber 7) (VNumber 42) empty_state /\
  map_on_failure rethrow (VRef 0) marker_state.
Proof.
  split.
  - apply (map_spec (fun _ => VNumber 7) rethrow (VNumber 42) VNull empty_state);
      [reflexivity | discriminate].
  - apply (map_spec (fun _ => VNumber 7) rethrow (VNumber 42) (VRef 0) marker_state);
      [reflexivity | discriminate].
Defined.

(** C4 as stated fails on [success(v)] at two values of [v]: a [Failure]
    instance makes [map] take the failure branch, and [undefined] is
    stored as [null], which is what [f] is then applied to. *)
Lemma map_on_success_counterexample :
  ~ map_on_success (fun _ => VNumber 1) (VRef 1) marker_state /\
  ~ map_on_success (fun x => VBool (strict_equals x VUndefined)) VUndefined empty_state.
Proof.
  split; intros (r & st1 & Hr & Hs); rewrite success_eq in Hr;
    injection Hr as <- <-; vm_compute in Hs; discriminate.
Qed.

(** C5.  On a success outcome whose value makes the transform [f] throw
    [e2], [mapCatching(f)] returns normally, and what it returns is
    [failure(e2)], built after the one call of [f]; on a failure outcome
    that holds [e] it returns [failure(e)] and does not call [f]. *)
Theorem mapCatching_captures (f : UserFn1) (this : loc) (st : State) :
  (forall v e2 h',
     success_outcome st this v ->
     f v (heap st) = (Throw e2, h') ->
     exists r' st',
       Result_mapCatching this (user1 f) st = (Normal r', st') /\
       Result_failure e2
         (after_call fn_transform [v] h' (after_call fn_callback [] (heap st) st))
         = (Normal r', st') /\
       failure_outcome st' r' e2) /\
  (forall e,
     failure_outcome st this e ->
     exists r' st',
       Result_mapCatching this (user1 f) st = (Normal r', st') /\
       Result_failure e st = (Normal r', st') /\
       failure_outcome st' r' e /\
       calls st' = calls st).
Proof.
  split.
  - intros v e2 h' [Hc Hp]%success_outcome_heap Hf.
    rewrite mapCatching_eq, Hc, Hp, runCatching_call1, Hf.
    destruct (failure_builds e2
      (after_call fn_transform [v] h' (after_call fn_callback [] (heap st) st)))
      as (r' & st' & Hr' & Hf' & _).
    by exists r', st'.
  - intros e [Hi He]%failure_outcome_heap.
    rewrite mapCatching_eq, Hi, He.
    destruct (failure_builds e st) as (r' & st' & Hr' & Hf' & Hc' & _).
    by exists r', st'.
Qed.

Lemma mapCatching_captures_witness :
  (exists r' st',
     Result_mapCatching 0 (user1 rethrow) two_outcomes_state = (Normal r', st') /\
     failure_outcome st' r' (VNumber 1)) /\
  (exists r' st',
     Result_mapCatching 3 (user1 rethrow) two_outcomes_state = (Normal r', st') /\
     failure_outcome st' r' (VRef 1) /\
     calls st' = calls two_outcomes_state).
Proof.
  split.
  - destruct (proj1 (mapCatching_captures rethrow 0 two_outcomes_state)
                (VNumber 1) (VNumber 1) (heap two_outcomes_state))
      as (r' & st' & H1 & _ & H3); [split; reflexivity | reflexivity |].
    by exists r', st'.
  - destruct (proj2 (mapCatching_captures rethrow 3 two_outcomes_state) (VRef 1))
      as (r' & st' & H1 & _ & H3 & H4); [split; reflexivity |].
    by exists r', st'.
Defined.

(** C6.  The code at a falsy error.  [runCatching(() => { throw null })]
    returns a failure that holds [null].  On it [recover(() => 1)] and
    [recoverCatching(() => 1)] return the failure itself and never call the
    transform, although [isFailure] is [true]; [getOrElse], [fold],
    [onFailure] and [map], which branch on the classification, treat the
    same outcome as the failure it is.  So [failure(null).recover(g)] is not
    the outcome [success(g(null))]. *)
Theorem recover_misses_falsy_failure :
  (exists r st1,
     runCatching (user0 (throws VNull)) empty_state = (Normal r, st1) /\
     failure_outcome st1 r VNull /\
     Result_recover r (user1 (pure1 (fun _ => VNumber 1))) st1 = (Normal r, st1) /\
     Result_recoverCatching r (user1 (pure1 (fun _ => VNumber 1))) st1
       = (Normal r, st1) /\
     fst (Result_getOrElse r (user1 (pure1 (fun _ => VNumber 1))) st1)
       = Normal (VNumber 1) /\
     fst (Result_fold r (user1 (pure1 (fun v => v)))
            (user1 (pure1 (fun _ => VNumber 1))) st1) = Normal (VNumber 1) /\
     calls (snd (Result_onFailure r (user1 (pure1 (fun _ => VNumber 1))) st1))
       = calls st1 ++ [{| callee := fn_action; arguments := [VNull] |}] /\
     calls (snd (Result_map r (user1 (pure1 (fun _ => VNumber 1))) st1))
       = calls st1) /\
  ~ recover_on_failure (pure1 (fun _ => VNumber 1)) VNull empty_state.
Proof.
  split.
  - eexists _, _. split; [reflexivity|]. repeat split.
  - intros (r & st1 & Hr & Hs). rewrite failure_eq in Hr.
    injection Hr as <- <-. vm_compute in Hs. discriminate.
Qed.

(** C7.  For every error [e], [failure(e).recoverCatching(err => { throw err })]
    is a failure, and its [exceptionOrNull()] is [e] itself. *)
Theorem recoverCatching_rethrow (e : JsValue) (st : State) :
  exists r st1 r' st2,
    Result_failure e st = (Normal r, st1) /\
    Result_recoverCatching r (user1 rethrow) st1 = (Normal r', st2) /\
    Result_isFailure r' st2 = (Normal true, st2) /\
    Result_exceptionOrNull r' st2 = (Normal e, st2).
Proof.
  destruct (failure_builds e st) as (r & st1 & Hr & Hf & _).
  pose proof Hf as [Hi He]%failure_outcome_heap.
  destruct (truthy e) eqn:Ht.
  - destruct (failure_builds e
      (after_call fn_transform [e] (heap st1)
         (after_call fn_callback [] (heap st1) st1)))
      as (r' & st2 & Hr' & [Hf1 Hf2] & _).
    exists r, st1, r', st2. split; [exact Hr|]. split; [|done].
    rewrite recoverCatching_eq, Hi. cbv zeta. rewrite He, Ht.
    by rewrite runCatching_call1.
  - exists r, st1, r, st1. split; [exact Hr|]. split; [|exact Hf].
    rewrite recoverCatching_eq, Hi. cbv zeta. by rewrite He, Ht.
Qed.

Lemma throwOnFailure_eq (this : loc) (st : State) :
  Result_throwOnFailure this st =
  if is_Failure_instance (heap st) (field_value (heap st) this)
  then (Throw (field_exception (heap st) (field_value (heap st) this)), st)
  else (Normal VUndefined, st).
Proof.
  destruct st as [h cs]. js_unfold.
  by destruct (is_Failure_instance h (field_value h this)).
Qed.

Lemma getOrThrow_eq (this : loc) (st : State) :
  Result_getOrThrow this st =
  if is_Failure_instance (heap st) (field_value (heap st) this)
  then (Throw (field_exception (heap st) (field_value (heap st) this)), st)
  else (Normal (field_value (heap st) this), st).
Proof.
  unfold Result_getOrThrow, bind. rewrite throwOnFailure_eq.
  by destruct (is_Failure_instance _ _).
Qed.

(** C8.  On a success outcome [getOrThrow] returns the stored value and
    [throwOnFailure] returns normally, neither throws; on [failure(e)] both
    throw [e] itself. *)
Theorem getOrThrow_spec (st : State) (s : loc) (v e : JsValue) :
  success_outcome st s v ->
  (Result_getOrThrow s st = (Normal v, st) /\
   Result_throwOnFailure s st = (Normal VUndefined, st)) /\
  (exists r st1,
     Result_failure e st = (Normal r, st1) /\
     Result_getOrThrow r st1 = (Throw e, st1) /\
     Result_throwOnFailure r st1 = (Throw e, st1)).
Proof.
  intros [Hc Hp]%success_outcome_heap. split.
  - by rewrite getOrThrow_eq, throwOnFailure_eq, Hc, Hp.
  - destruct (failure_builds e st) as (r & st1 & Hr & [Hi He]%failure_outcome_heap & _).
    exists r, st1. by rewrite getOrThrow_eq, throwOnFailure_eq, Hi, He.
Qed.

Lemma getOrThrow_spec_witness :
  Result_getOrThrow 0 two_outcomes_state = (Normal (VNumber 1), two_outcomes_state) /\
  Result_getOrThrow 3 two_outcomes_state = (Throw (VRef 1), two_outcomes_state).
Proof.
  destruct (getOrThrow_spec two_outcomes_state 0 (VNumber 1) (VRef 1)) as [[H _] _].
  - split; reflexivity.
  - split; [exact H | reflexivity].
Defined.

(** C10.  On a failure outcome whose error [e] is falsy, [isFailure] is
    [true], and yet [recover] and [recoverCatching] both return the outcome
    they were called on, leave the state as it was, and do not call the
    transform. *)
Theorem recover_skips_falsy_error (g : UserFn1) (st : State) (this : loc)
    (e : JsValue) :
  failure_outcome st this e ->
  truthy e = false ->
  Result_isFailure this st = (Normal true, st) /\
  Result_recover this (user1 g) st = (Normal this, st) /\
  Result_recoverCatching this (user1 g) st = (Normal this, st).
Proof.
  intros Hf Ht. split; [apply Hf|].
  apply failure_outcome_heap in Hf as [Hi He].
  rewrite recover_eq, recoverCatching_eq, Hi. cbv zeta. by rewrite He, Ht.
Qed.

Lemma recover_skips_falsy_error_witness :
  Result_isFailure 1 null_failure_state = (Normal true, null_failure_state) /\
  Result_recover 1 (user1 (pure1 (fun _ => VNumber 7))) null_failure_state
    = (Normal 1, null_failure_state) /\
  Result_recoverCatching 1 (user1 (pure1 (fun _ => VNumber 7))) null_failure_state
    = (Normal 1, null_failure_state).
Proof.
  apply (recover_skips_falsy_error (pure1 (fun _ => VNumber 7))
           null_failure_state 1 VNull).
  - split; reflexivity.
  - reflexivity.
Defined.

(** ** Immutability *)











(** *** The library writes to no object: whatever relation between heaps
    the callbacks respect, every operation respects. *)
Section Respects.
Variable R : list Obj -> list Obj -> Prop.
Hypothesis R_refl : forall h, R h h.
Hypothesis R_trans : forall h1 h2 h3, R h1 h2 -> R h2 h3 -> R h1 h3.
Hypothesis R_snoc : forall h o, R h (h ++ [o]).

Lemma respects_ret {A} (a : A) : respects R (ret a).
Proof using R_refl. intros st. apply R_refl. Qed.

Lemma respects_throw {A} (e : JsValue) : respects R (@throw A e).
Proof using R_refl. intros st. apply R_refl. Qed.

Lemma respects_read {A} (f : list Obj -> A) : respects R (read f).
Proof using R_refl. intros st. apply R_refl. Qed.

Lemma respects_log_call (who : Callee) (args : list JsValue) :
  respects R (log_call who args).
Proof using R_refl. intros st. apply R_refl. Qed.

Lemma respects_alloc (o : Obj) : respects R (alloc o).
Proof using R_snoc. intros st. apply R_snoc. Qed.

Lemma respects_bind {A B} (m : M A) (k : A -> M B) :
  respects R m -> (forall a, respects R (k a)) -> respects R (bind m k).
Proof using R_trans.
  intros Hm Hk st. unfold bind. specialize (Hm st).
  destruct (m st) as [[a|e] st1]; cbn [snd] in *; [|exact Hm].
  eapply R_trans; [exact Hm | apply Hk].
Qed.

Lemma respects_try_catch {A} (body : M A) (handler : JsValue -> M A) :
  respects R body -> (forall e, respects R (handler e)) ->
  respects R (try_catch body handler).
Proof using R_trans.
  intros Hm Hk st. unfold try_catch. specialize (Hm st).
  destruct (body st) as [[a|e] st1]; cbn [snd] in *; [exact Hm|].
  eapply R_trans; [exact Hm | apply Hk].
Qed.

Lemma respects_if {A} (b : bool) (m1 m2 : M A) :
  respects R m1 -> respects R m2 -> respects R (if b then m1 else m2).
Proof using Type. by destruct b. Qed.

Create HintDb js_resp.
#[local] Hint Resolve respects_ret respects_throw respects_read
  respects_log_call respects_alloc respects_bind respects_try_catch
  respects_if : js_resp.
#[local] Hint Unfold instanceof_Failure get_value get_exception call0 call1
  new_Failure createFailure new_Result of_bool of_ref
  Result_isFailure Result_isSuccess Result_getOrNull Result_exceptionOrNull
  Result_throwOnFailure Result_getOrThrow
  Result_getOrElse Result_getOrDefault Result_fold Result_success
  Result_failure Result_map runCatching Function_prototype_runCatching
  Result_mapCatching Result_recover Result_recoverCatching
  Result_onFailure Result_onSuccess : js_resp.



End Respects.

(** *** Scripts cannot write to a [Result] *)















Lemma keeps_markers_read (strict : bool) (l : loc) (k : option Obj -> Script) :
  (forall o, script_keeps_markers strict (k o)) ->
  script_keeps_markers strict (sRead l k).
Proof. intros Hk h. cbn [run_script]. apply Hk. Qed.








(** * Further properties of the class *)

(** ** Equations of the remaining methods *)

Lemma call1_user (who : Callee) (f : UserFn1) (a : JsValue) (st : State) :
  call1 who (user1 f) a st = run_user who f a st.
Proof. destruct st as [h cs]. unfold run_user. js_unfold. by destruct (f a h). Qed.

Lemma run_user_calls (who : Callee) (f : UserFn1) (a : JsValue) (st : State) :
  calls (snd (run_user who f a st))
  = calls st ++ [{| callee := who; arguments := [a] |}].
Proof. unfold run_user. by destruct (f a (heap st)). Qed.

Lemma getOrDefault_eq (this : loc) (d : JsValue) (st : State) :
  Result_getOrDefault this d st =
  (Normal (if is_Failure_instance (heap st) (field_value (heap st) this)
           then d else field_value (heap st) this), st).
Proof.
  unfold Result_getOrDefault, bind. rewrite isFailure_eq.
  by destruct (is_Failure_instance _ _).
Qed.

Lemma getOrElse_eq (this : loc) (f : UserFn1) (st : State) :
  Result_getOrElse this (user1 f) st =
  if is_Failure_instance (heap st) (field_value (heap st) this)
  then run_user fn_onFailure f
         (field_exception (heap st) (field_value (heap st) this)) st
  else (Normal (field_value (heap st) this), st).
Proof.
  unfold Result_getOrElse, bind at 1. rewrite isFailure_eq.
  destruct (is_Failure_instance _ _) eqn:E; [|reflexivity].
  unfold bind. rewrite exceptionOrNull_eq, E. apply call1_user.
Qed.

Lemma fold_eq (this : loc) (f g : UserFn1) (st : State) :
  Result_fold this (user1 f) (user1 g) st =
  if is_Failure_instance (heap st) (field_value (heap st) this)
  then run_user fn_onFailure g
         (field_exception (heap st) (field_value (heap st) this)) st
  else run_user fn_onSuccess f (field_value (heap st) this) st.
Proof.
  unfold Result_fold, bind at 1. rewrite isSuccess_eq.
  destruct (is_Failure_instance _ _) eqn:E; cbn [negb]; unfold bind.
  - rewrite exceptionOrNull_eq, E. apply call1_user.
  - apply call1_user.
Qed.

Lemma onSuccess_eq (this : loc) (a : UserFn1) (st : State) :
  Result_onSuccess this (user1 a) st =
  if is_Failure_instance (heap st) (field_value (heap st) this)
  then (Normal this, st)
  else match run_user fn_action a (field_value (heap st) this) st with
       | (Normal _, st') => (Normal this, st')
       | (Throw x, st') => (Throw x, st')
       end.
Proof.
  unfold Result_onSuccess, bind at 1. rewrite isSuccess_eq.
  destruct (is_Failure_instance _ _); cbn [negb]; [reflexivity|].
  unfold bind at 1. unfold bind at 1. unfold get_value at 1, read.
  rewrite call1_user. by destruct (run_user _ _ _ _) as [[x|x] st'].
Qed.

Lemma onFailure_eq (this : loc) (a : UserFn1) (st : State) :
  Result_onFailure this (user1 a) st =
  if is_Failure_instance (heap st) (field_value (heap st) this)
  then match run_user fn_action a
               (field_exception (heap st) (field_value (heap st) this)) st with
       | (Normal _, st') => (Normal this, st')
       | (Throw x, st') => (Throw x, st')
       end
  else (Normal this, st).
Proof.
  unfold Result_onFailure, bind at 1. rewrite isFailure_eq.
  destruct (is_Failure_instance _ _) eqn:E; [|reflexivity].
  unfold bind at 1. unfold bind at 1. rewrite exceptionOrNull_eq, E.
  rewrite call1_user. by destruct (run_user _ _ _ _) as [[x|x] st'].
Qed.

(** ** Classification *)

(** X1.  For every error [e], [failure(e)] returns a reference that was not
    in the heap before, leaves every object that was there as it is and
    calls nothing; the outcome answers [isFailure = true],
    [isSuccess = false], [getOrNull() = null] and [exceptionOrNull() = e]. *)
Theorem failure_observers (e : JsValue) (st : State) :
  exists r st',
    Result_failure e st = (Normal r, st') /\
    (Result_isFailure r st' = (Normal true, st') /\
     Result_isSuccess r st' = (Normal false, st') /\
     Result_getOrNull r st' = (Normal VNull, st') /\
     Result_exceptionOrNull r st' = (Normal e, st')) /\
    (length (heap st) <= r /\
     (forall l o, heap st !! l = Some o -> heap st' !! l = Some o) /\
     calls st' = calls st).
Proof.
  eexists _, _. split; [apply failure_eq|].
  rewrite isFailure_eq, isSuccess_eq, getOrNull_eq, exceptionOrNull_eq.
  cbn [heap calls].
  rewrite field_value_failure, is_Failure_instance_new_Failure,
    field_exception_new_Failure.
  repeat split; [lia|]. intros l o H.
  by apply lookup_snoc_old, lookup_snoc_old.
Qed.

(** X2.  Whatever the receiver and the state, exactly one of the two
    classifications holds: either [isSuccess] is [true], [isFailure] is
    [false] and [exceptionOrNull()] is [null], or [isFailure] is [true],
    [isSuccess] is [false] and [getOrNull()] is [null]; never both. *)
Theorem classification_exclusive (this : loc) (st : State) :
  ((exists v, success_outcome st this v /\
              Result_isFailure this st = (Normal false, st) /\
              Result_exceptionOrNull this st = (Normal VNull, st)) \/
   (exists e, failure_outcome st this e /\
              Result_isSuccess this st = (Normal false, st) /\
              Result_getOrNull this st = (Normal VNull, st))) /\
  ~ (exists v e, success_outcome st this v /\ failure_outcome st this e).
Proof.
  split.
  - destruct (is_Failure_instance (heap st) (field_value (heap st) this)) eqn:E.
    + right. eexists. rewrite failure_outcome_heap, isSuccess_eq, getOrNull_eq, E.
      done.
    + left. eexists. rewrite success_outcome_heap, isFailure_eq,
        exceptionOrNull_eq, E. done.
  - intros (v & e & [Hs _]%success_outcome_heap & [Hf _]%failure_outcome_heap).
    congruence.
Qed.

(** ** The eliminators *)

(** X3.  [fold] calls exactly one of its two callbacks, exactly once: on a
    success [onSuccess] with the value, on a failure [onFailure] with the
    error.  What [fold] gives back is the completion of that call, so an
    error thrown by the callback reaches the caller of [fold]. *)
Theorem fold_calls_exactly_one (f g : UserFn1) (this : loc) (st : State) :
  (exists v, success_outcome st this v /\
     Result_fold this (user1 f) (user1 g) st = run_user fn_onSuccess f v st /\
     calls (snd (Result_fold this (user1 f) (user1 g) st))
     = calls st ++ [{| callee := fn_onSuccess; arguments := [v] |}]) \/
  (exists e, failure_outcome st this e /\
     Result_fold this (user1 f) (user1 g) st = run_user fn_onFailure g e st /\
     calls (snd (Result_fold this (user1 f) (user1 g) st))
     = calls st ++ [{| callee := fn_onFailure; arguments := [e] |}]).
Proof.
  rewrite fold_eq.
  destruct (is_Failure_instance (heap st) (field_value (heap st) this)) eqn:E.
  - right. eexists. rewrite failure_outcome_heap, E, run_user_calls. done.
  - left. eexists. rewrite success_outcome_heap, E, run_user_calls. done.
Qed.

(** X4.  [getOrElse] on a success returns the value, calls nothing and
    leaves the state as it is; on a failure it calls [onFailure] once with
    the captured error and gives back the completion of that call, a
    thrown error included. *)
Theorem getOrElse_spec (f : UserFn1) (this : loc) (st : State) :
  (forall v, success_outcome st this v ->
     Result_getOrElse this (user1 f) st = (Normal v, st)) /\
  (forall e, failure_outcome st this e ->
     Result_getOrElse this (user1 f) st = run_user fn_onFailure f e st).
Proof.
  split.
  - intros v [Hc Hp]%success_outcome_heap. by rewrite getOrElse_eq, Hc, Hp.
  - intros e [Hi He]%failure_outcome_heap. by rewrite getOrElse_eq, Hi, He.
Qed.

Lemma getOrElse_spec_witness :
  Result_getOrElse 0 (user1 rethrow) two_outcomes_state
    = (Normal (VNumber 1), two_outcomes_state) /\
  Result_getOrElse 3 (user1 rethrow) two_outcomes_state
    = run_user fn_onFailure rethrow (VRef 1) two_outcomes_state.
Proof.
  split.
  - apply (proj1 (getOrElse_spec rethrow 0 two_outcomes_state) (VNumber 1)).
    split; reflexivity.
  - apply (proj2 (getOrElse_spec rethrow 3 two_outcomes_state) (VRef 1)).
    split; reflexivity.
Defined.

(** X5.  [getOrDefault(d)] gives what [getOrElse(() => d)] gives, value and
    heap, and unlike it calls nothing and leaves the state as it is. *)
Theorem getOrDefault_as_getOrElse (this : loc) (d : JsValue) (st : State) :
  result_of (Result_getOrDefault this d st)
  = result_of (Result_getOrElse this (user1 (pure1 (fun _ => d))) st) /\
  snd (Result_getOrDefault this d st) = st.
Proof.
  rewrite getOrDefault_eq, getOrElse_eq.
  by destruct (is_Failure_instance _ _).
Qed.

(** X6.  The two nullable extractors are instances of the eliminators:
    [getOrNull()] is [getOrDefault(null)], and it gives what
    [fold(v => v, () => null)] gives; [exceptionOrNull()] gives what
    [fold(() => null, e => e)] gives. *)
Theorem extractors_as_fold (this : loc) (st : State) :
  Result_getOrNull this st = Result_getOrDefault this VNull st /\
  result_of (Result_getOrNull this st)
  = result_of (Result_fold this (user1 (pure1 (fun v => v)))
                 (user1 (pure1 (fun _ => VNull))) st) /\
  result_of (Result_exceptionOrNull this st)
  = result_of (Result_fold this (user1 (pure1 (fun _ => VNull)))
                 (user1 (pure1 (fun e => e))) st).
Proof.
  rewrite getOrNull_eq, getOrDefault_eq, exceptionOrNull_eq, !fold_eq.
  by destruct (is_Failure_instance _ _).
Qed.

(** X7.  [getOrThrow()] gives what [getOrElse(e => { throw e })] gives: the
    value of a success, and the captured error thrown for a failure. *)
Theorem getOrThrow_as_getOrElse (this : loc) (st : State) :
  result_of (Result_getOrThrow this st)
  = result_of (Result_getOrElse this (user1 rethrow) st).
Proof.
  rewrite getOrThrow_eq, getOrElse_eq.
  by destruct (is_Failure_instance _ _).
Qed.

(** X8.  [getOrElse(h)] gives what [fold(v => v, h)] gives, for every
    function [h] of the caller. *)
Theorem getOrElse_as_fold (h : UserFn1) (this : loc) (st : State) :
  result_of (Result_getOrElse this (user1 h) st)
  = result_of (Result_fold this (user1 (pure1 (fun v => v))) (user1 h) st).
Proof.
  rewrite getOrElse_eq, fold_eq.
  destruct (is_Failure_instance _ _); [|reflexivity].
  unfold run_user, result_of. by destruct (h _ _).
Qed.

(** ** The hooks *)

(** X9.  [onSuccess] calls its action once, with the value, on a success and
    not at all on a failure; [onFailure] the other way round, with the
    error.  When the action returns, whatever it returns, the hook returns
    the receiver itself; when the action throws, so does the hook. *)
Theorem hooks_spec (a : UserFn1) (this : loc) (st : State) :
  (forall v, success_outcome st this v ->
     Result_onSuccess this (user1 a) st =
       match run_user fn_action a v st with
       | (Normal _, st') => (Normal this, st')
       | (Throw x, st') => (Throw x, st')
       end /\
     Result_onFailure this (user1 a) st = (Normal this, st)) /\
  (forall e, failure_outcome st this e ->
     Result_onFailure this (user1 a) st =
       match run_user fn_action a e st with
       | (Normal _, st') => (Normal this, st')
       | (Throw x, st') => (Throw x, st')
       end /\
     Result_onSuccess this (user1 a) st = (Normal this, st)).
Proof.
  split.
  - intros v [Hc Hp]%success_outcome_heap.
    by rewrite onSuccess_eq, onFailure_eq, Hc, Hp.
  - intros e [Hi He]%failure_outcome_heap.
    by rewrite onSuccess_eq, onFailure_eq, Hi, He.
Qed.

Lemma hooks_spec_witness :
  Result_onFailure 0 (user1 rethrow) two_outcomes_state
    = (Normal 0, two_outcomes_state) /\
  Result_onSuccess 3 (user1 rethrow) two_outcomes_state
    = (Normal 3, two_outcomes_state).
Proof.
  split.
  - apply (proj1 (hooks_spec rethrow 0 two_outcomes_state) (VNumber 1)).
    split; reflexivity.
  - apply (proj2 (hooks_spec rethrow 3 two_outcomes_state) (VRef 1)).
    split; reflexivity.
Defined.



(** ** Transforms that throw *)

(** X11.  On a success outcome, [map] and [mapCatching] agree as long as the
    transform returns: both give [success] of what it returned.  When the
    transform throws, [map] lets the error through to its caller and
    builds no outcome, where [mapCatching] returns a failure. *)
Theorem map_propagates (f : UserFn1) (st : State) (s : loc) (v : JsValue)
    (c : Completion JsValue) (h' : list Obj) :
  success_outcome st s v ->
  f v (heap st) = (c, h') ->
  match c with
  | Normal x =>
      Result_map s (user1 f) st
        = Result_success x (after_call fn_transform [v] h' st) /\
      result_of (Result_mapCatching s (user1 f) st)
        = result_of (Result_map s (user1 f) st)
  | Throw e2 =>
      Result_map s (user1 f) st = (Throw e2, after_call fn_transform [v] h' st) /\
      exists r' st', Result_mapCatching s (user1 f) st = (Normal r', st') /\
                     failure_outcome st' r' e2
  end.
Proof.
  intros [Hc Hp]%success_outcome_heap Hf.
  rewrite map_eq, mapCatching_eq, Hc, Hp, runCatching_call1, Hf.
  unfold bind. rewrite call1_user. unfold run_user. rewrite Hf.
  destruct c as [x|e2]; [done|]. split; [done|].
  destruct (failure_builds e2
    (after_call fn_transform [v] h' (after_call fn_callback [] (heap st) st)))
    as (r' & st' & Hr' & Hf' & _).
  by exists r', st'.
Qed.

Lemma map_propagates_witness :
  Result_map 0 (user1 rethrow) two_outcomes_state
  = (Throw (VNumber 1),
     after_call fn_transform [VNumber 1] (heap two_outcomes_state)
       two_outcomes_state).
Proof.
  destruct (map_propagates rethrow two_outcomes_state 0 (VNumber 1)
              (Throw (VNumber 1)) (heap two_outcomes_state)) as [H _];
    [split; reflexivity | reflexivity | exact H].
Defined.

(** X12.  On a failure outcome with a truthy error, [recover] and
    [recoverCatching] agree as long as the transform returns: both give
    [success] of what it returned.  When the transform throws, [recover]
    lets the error through and builds no outcome, where [recoverCatching]
    returns a failure that holds the new error. *)
Theorem recover_propagates (g : UserFn1) (st : State) (r : loc) (e : JsValue)
    (c : Completion JsValue) (h' : list Obj) :
  failure_outcome st r e ->
  truthy e = true ->
  g e (heap st) = (c, h') ->
  match c with
  | Normal x =>
      Result_recover r (user1 g) st
        = Result_success x (after_call fn_transform [e] h' st) /\
      result_of (Result_recoverCatching r (user1 g) st)
        = result_of (Result_recover r (user1 g) st)
  | Throw e2 =>
      Result_recover r (user1 g) st
        = (Throw e2, after_call fn_transform [e] h' st) /\
      exists r' st', Result_recoverCatching r (user1 g) st = (Normal r', st') /\
                     failure_outcome st' r' e2
  end.
Proof.
  intros [Hi He]%failure_outcome_heap Ht Hg.
  rewrite recover_eq, recoverCatching_eq, Hi. cbv zeta.
  rewrite He, Ht, runCatching_call1, Hg.
  unfold bind. rewrite call1_user. unfold run_user. rewrite Hg.
  destruct c as [x|e2]; [done|]. split; [done|].
  destruct (failure_builds e2
    (after_call fn_transform [e] h' (after_call fn_callback [] (heap st) st)))
    as (r' & st' & Hr' & Hf' & _).
  by exists r', st'.
Qed.

Lemma recover_propagates_witness :
  Result_recover 3 (user1 rethrow) two_outcomes_state
  = (Throw (VRef 1),
     after_call fn_transform [VRef 1] (heap two_outcomes_state)
       two_outcomes_state).
Proof.
  destruct (recover_propagates rethrow two_outcomes_state 3 (VRef 1)
              (Throw (VRef 1)) (heap two_outcomes_state)) as [H _];
    [split; reflexivity | reflexivity | reflexivity | exact H].
Defined.

(** ** The outcomes that the factories build, as the observers see them *)

Lemma outcome_of_failure (e : JsValue) (st : State) :
  outcome_of (Result_failure e st) =
  Normal {| obs_isSuccess := Normal false; obs_isFailure := Normal true;
            obs_valueOrNull := Normal VNull; obs_errorOrNull := Normal e |}.
Proof.
  destruct (failure_builds e st) as (r & st' & Hr & [Hf He] & _ & Hs & Hg).
  rewrite Hr. cbn [outcome_of]. unfold observe. by rewrite Hf, He, Hs, Hg.
Qed.

Lemma outcome_of_success (q : JsValue) (st : State) :
  outcome_of (Result_success q st) =
  Normal (if is_Failure_instance (heap st) (default_null q)
          then {| obs_isSuccess := Normal false; obs_isFailure := Normal true;
                  obs_valueOrNull := Normal VNull;
                  obs_errorOrNull :=
                    Normal (field_exception (heap st) (default_null q)) |}
          else {| obs_isSuccess := Normal true; obs_isFailure := Normal false;
                  obs_valueOrNull := Normal (default_null q);
                  obs_errorOrNull := Normal VNull |}).
Proof.
  rewrite success_eq. cbn [outcome_of]. unfold observe.
  rewrite isSuccess_eq, isFailure_eq, getOrNull_eq, exceptionOrNull_eq.
  cbn [heap fst].
  rewrite field_value_snoc_new, is_Failure_instance_snoc_Result,
    field_exception_snoc_Result.
  by destruct (is_Failure_instance _ _).
Qed.

Lemma observe_classified (this : loc) (st : State) :
  observe this st =
  if is_Failure_instance (heap st) (field_value (heap st) this)
  then {| obs_isSuccess := Normal false; obs_isFailure := Normal true;
          obs_valueOrNull := Normal VNull;
          obs_errorOrNull :=
            Normal (field_exception (heap st) (field_value (heap st) this)) |}
  else {| obs_isSuccess := Normal true; obs_isFailure := Normal false;
          obs_valueOrNull := Normal (field_value (heap st) this);
          obs_errorOrNull := Normal VNull |}.
Proof.
  unfold observe.
  rewrite isSuccess_eq, isFailure_eq, getOrNull_eq, exceptionOrNull_eq.
  by destruct (is_Failure_instance _ _).
Qed.

Lemma default_null_id (v : JsValue) : v <> VUndefined -> default_null v = v.
Proof. by destruct v. Qed.

Lemma map_pure_success (f : JsValue -> JsValue) (this : loc) (st : State) :
  is_Failure_instance (heap st) (field_value (heap st) this) = false ->
  Result_map this (user1 (pure1 f)) st =
  Result_success (f (field_value (heap st) this))
    (after_call fn_transform [field_value (heap st) this] (heap st) st).
Proof. intros E. rewrite map_eq, E. by destruct st. Qed.

(** ** The functor laws of [map] *)

(** X13.  [map(v => v)] builds an outcome that the observers cannot tell
    from the receiver, provided the receiver does not hold [undefined]
    (no outcome built by the factories does). *)
Theorem map_identity (this : loc) (st : State) :
  fst (Result_getOrNull this st) <> Normal VUndefined ->
  same_outcome (Result_map this (user1 (pure1 (fun v => v))) st)
               (Normal this, st).
Proof.
  intros Hu. unfold same_outcome. cbn [outcome_of].
  rewrite getOrNull_eq in Hu. cbn [fst] in Hu. rewrite observe_classified.
  destruct (is_Failure_instance (heap st) (field_value (heap st) this)) eqn:E.
  - by rewrite map_eq, E, outcome_of_failure.
  - rewrite (map_pure_success _ _ _ E), outcome_of_success. cbn [after_call heap].
    rewrite default_null_id by congruence. by rewrite E.
Qed.

Lemma map_identity_witness :
  same_outcome (Result_map 3 (user1 (pure1 (fun v => v))) two_outcomes_state)
               (Normal 3, two_outcomes_state).
Proof. apply (map_identity 3 two_outcomes_state). discriminate. Defined.

(** X14.  [r.map(f).map(g)] is the outcome [r.map(x => g(f(x)))] for pure
    [f] and [g]: on a failure always, and on a success that holds [v] as
    long as [f(v)] is neither [undefined] nor an instance of the marker
    class. *)
Theorem map_compose (f g : JsValue -> JsValue) (this : loc) (st : State) :
  (forall v,
     success_outcome st this v ->
     f v <> VUndefined ->
     is_Failure_instance (heap st) (f v) = false ->
     same_outcome
       ((r1 <- Result_map this (user1 (pure1 f)) ;;
         Result_map r1 (user1 (pure1 g))) st)
       (Result_map this (user1 (pure1 (fun x => g (f x)))) st)) /\
  (forall e,
     failure_outcome st this e ->
     same_outcome
       ((r1 <- Result_map this (user1 (pure1 f)) ;;
         Result_map r1 (user1 (pure1 g))) st)
       (Result_map this (user1 (pure1 (fun x => g (f x)))) st)).
Proof.
  unfold same_outcome, bind. split.
  - intros v [Hc Hp]%success_outcome_heap Hu Hm.
    rewrite !(map_pure_success _ this st Hc), Hp.
    set (sa := after_call fn_transform [v] (heap st) st).
    destruct (success_builds (f v) sa Hm) as (r1 & s1 & -> & Hs1 & _ & Hh).
    rewrite (default_null_id _ Hu) in *.
    apply success_outcome_heap in Hs1 as [Hc1 Hp1].
    rewrite (map_pure_success _ r1 s1 Hc1), Hp1, !outcome_of_success.
    cbn [after_call heap]. rewrite Hh. subst sa. cbn [after_call heap].
    by rewrite is_Failure_instance_snoc_Result, field_exception_snoc_Result.
  - intros e [Hi He]%failure_outcome_heap.
    rewrite !map_eq, Hi, He.
    destruct (failure_builds e st) as (r1 & s1 & Hr1 & [Hi1 He1]%failure_outcome_heap & _).
    rewrite Hr1, map_eq, Hi1, He1, outcome_of_failure.
    rewrite <- Hr1. by rewrite outcome_of_failure.
Qed.

Lemma map_compose_witness :
  same_outcome
    ((r1 <- Result_map 0 (user1 (pure1 (fun _ => VString "a"))) ;;
      Result_map r1 (user1 (pure1 (fun x => VBool (strict_equals x VNull)))))
       two_outcomes_state)
    (Result_map 0
       (user1 (pure1 (fun x => VBool (strict_equals (VString "a") VNull))))
       two_outcomes_state) /\
  same_outcome
    ((r1 <- Result_map 3 (user1 (pure1 (fun _ => VUndefined))) ;;
      Result_map r1 (user1 (pure1 (fun x => x)))) two_outcomes_state)
    (Result_map 3 (user1 (pure1 (fun _ => VUndefined))) two_outcomes_state).
Proof.
  split.
  - apply (proj1 (map_compose (fun _ => VString "a")
                    (fun x => VBool (strict_equals x VNull))
                    0 two_outcomes_state) (VNumber 1));
      [split; reflexivity | discriminate | reflexivity].
  - apply (proj2 (map_compose (fun _ => VUndefined) (fun x => x)
                    3 two_outcomes_state) (VRef 1)).
    split; reflexivity.
Defined.

(** ** Round trip through the safe-call boundary *)

(** X15.  Capturing a computation with either form of [runCatching] and
    unwrapping the outcome with [getOrThrow] gives back what the
    computation did: the error it threw is thrown again, the value it
    returned is returned, [undefined] as [null].  The returned value must
    not be an instance of the marker class. *)
Theorem runCatching_getOrThrow (f : UserFn0) (st : State)
    (c : Completion JsValue) (h1 : list Obj) :
  f (heap st) = (c, h1) ->
  (forall r, c = Normal r -> is_Failure_instance h1 r = false) ->
  fst ((o <- runCatching (user0 f) ;; Result_getOrThrow o) st) = recaptured c /\
  fst ((o <- Function_prototype_runCatching (user0 f) ;; Result_getOrThrow o) st)
  = recaptured c.
Proof.
  intros Hf Hm. unfold bind. rewrite runCatching_eq, bound_runCatching_eq, Hf.
  destruct c as [r|e]; cbn [recaptured].
  - specialize (Hm r eq_refl).
    destruct (success_builds r (after_call fn_callback [] h1 st) Hm)
      as (o & s1 & -> & [Hc Hp]%success_outcome_heap & _).
    destruct (success_builds r (after_call fn_this [] h1 st) Hm)
      as (o' & s1' & -> & [Hc' Hp']%success_outcome_heap & _).
    by rewrite !getOrThrow_eq, Hc, Hp, Hc', Hp'.
  - destruct (failure_builds e (after_call fn_callback [] h1 st))
      as (o & s1 & -> & [Hi He]%failure_outcome_heap & _).
    destruct (failure_builds e (after_call fn_this [] h1 st))
      as (o' & s1' & -> & [Hi' He']%failure_outcome_heap & _).
    by rewrite !getOrThrow_eq, Hi, He, Hi', He'.
Qed.

Lemma runCatching_getOrThrow_witness :
  fst ((o <- runCatching (user0 (returns (VNumber 42))) ;; Result_getOrThrow o)
         empty_state) = Normal (VNumber 42) /\
  fst ((o <- runCatching (user0 (throws (VString "x"))) ;; Result_getOrThrow o)
         empty_state) = Throw (VString "x").
Proof.
  split.
  - apply (runCatching_getOrThrow (returns (VNumber 42)) empty_state
             (Normal (VNumber 42)) []); [reflexivity|].
    intros r Hr. injection Hr as <-. reflexivity.
  - apply (runCatching_getOrThrow (throws (VString "x")) empty_state
             (Throw (VString "x")) []); [reflexivity | discriminate].
Defined.

(** ** Equality of markers *)

Lemma Failure_equals_eq (this other : JsValue) (st : State) :
  Failure_equals this other st =
  (Normal (is_Failure_instance (heap st) other &&
           strict_equals (field_exception (heap st) other)
                         (field_exception (heap st) this)), st).
Proof.
  unfold Failure_equals, bind, instanceof_Failure, get_exception, read, ret.
  by destruct (is_Failure_instance (heap st) other).
Qed.

(** [===] holds exactly between a value other than NaN and itself. *)
Lemma strict_equals_true (a b : JsValue) :
  strict_equals a b = bool_decide (a = b /\ a <> VNaN).
Proof.
  destruct (decide (a = b)) as [<-|Hne].
  - destruct a; cbn; try (rewrite bool_decide_eq_true_2; [|done]);
      symmetry; first [ by apply bool_decide_eq_true_2
                      | apply bool_decide_eq_false_2; tauto ].
  - transitivity false; [|symmetry; apply bool_decide_eq_false_2; tauto].
    destruct a, b; cbn; try reflexivity; by apply bool_decide_eq_false_2.
Qed.

(** X16.  [equals] compares markers by the error they wrap, not by their
    own identity: two markers made by [createFailure] are distinct
    objects, and they are [equals] exactly when their errors are the same
    value other than NaN.  A marker [equals] itself unless it wraps NaN,
    and it [equals] no value that is not a marker. *)
Theorem Failure_equals_by_exception (e1 e2 : JsValue) (st : State) :
  exists m1 m2 st',
    (a <- createFailure e1 ;; b <- createFailure e2 ;; ret (a, b)) st
      = (Normal (m1, m2), st') /\
    m1 <> m2 /\
    Failure_equals m1 m2 st'
      = (Normal (bool_decide (e1 = e2 /\ e1 <> VNaN)), st') /\
    Failure_equals m1 m1 st' = (Normal (bool_decide (e1 <> VNaN)), st') /\
    (forall other, is_Failure_instance (heap st') other = false ->
                   Failure_equals m1 other st' = (Normal false, st')).
Proof.
  destruct st as [h cs]. eexists _, _, _. split; [reflexivity|].
  cbn [heap calls].
  assert (H1 : ((h ++ [OFailure e1]) ++ [OFailure e2]) !! length h
               = Some (OFailure e1))
    by apply lookup_snoc_old, lookup_snoc_new.
  assert (H2 : ((h ++ [OFailure e1]) ++ [OFailure e2]) !! length (h ++ [OFailure e1])
               = Some (OFailure e2))
    by apply lookup_snoc_new.
  split; [|split; [|split]].
  - rewrite length_app. cbn. intros [=]. lia.
  - rewrite Failure_equals_eq. cbn [heap].
    unfold is_Failure_instance, field_exception.
    rewrite H1, H2. cbn [andb]. rewrite strict_equals_true. do 2 f_equal.
    apply bool_decide_ext. split; intros [-> H]; done.
  - rewrite Failure_equals_eq. cbn [heap].
    unfold is_Failure_instance, field_exception.
    rewrite H1. cbn [andb]. rewrite strict_equals_true. do 2 f_equal.
    apply bool_decide_ext. tauto.
  - intros other Ho. rewrite Failure_equals_eq. cbn [heap] in *. by rewrite Ho.
Qed.

(** ** Which operations can throw *)

Lemma completes_ret {A} (a : A) : completes (ret a).
Proof. intros st. by eexists _, _. Qed.

Lemma completes_read {A} (f : list Obj -> A) : completes (read f).
Proof. intros st. by eexists _, _. Qed.

Lemma completes_alloc (o : Obj) : completes (alloc o).
Proof. intros st. by eexists _, _. Qed.

Lemma completes_log_call (who : Callee) (args : list JsValue) :
  completes (log_call who args).
Proof. intros st. by eexists _, _. Qed.

Lemma completes_bind {A B} (m : M A) (k : A -> M B) :
  completes m -> (forall a, completes (k a)) -> completes (bind m k).
Proof.
  intros Hm Hk st. unfold bind.
  destruct (Hm st) as (a & st1 & ->). apply Hk.
Qed.

Lemma completes_try_catch {A} (body : M A) (handler : JsValue -> M A) :
  (forall e, completes (handler e)) -> completes (try_catch body handler).
Proof.
  intros Hk st. unfold try_catch.
  destruct (body st) as [[a|e] st1]; [by eexists _, _ | apply Hk].
Qed.

Lemma completes_if {A} (b : bool) (m1 m2 : M A) :
  completes m1 -> completes m2 -> completes (if b then m1 else m2).
Proof. by destruct b. Qed.

Create HintDb js_total.
#[local] Hint Resolve completes_ret completes_read completes_alloc
  completes_log_call completes_bind completes_try_catch completes_if : js_total.
#[local] Hint Unfold instanceof_Failure get_value get_exception call0 call1
  new_Failure createFailure new_Result of_bool of_ref
  Result_isFailure Result_isSuccess Result_getOrNull Result_exceptionOrNull
  Result_getOrElse Result_getOrDefault Result_fold Result_success
  Result_failure Result_map runCatching Function_prototype_runCatching
  Result_mapCatching Result_recover Result_recoverCatching
  Result_onFailure Result_onSuccess : js_total.

Ltac total := intros; autounfold with js_total; eauto 20 with js_total.

(** X17.  The safe-call boundary never throws: both forms of [runCatching],
    [mapCatching] and [recoverCatching] return normally from every state,
    whatever the function they are given does. *)
Theorem catching_never_throws (c : Fn0) (f : Fn1) (this : loc) :
  completes (runCatching c) /\
  completes (Function_prototype_runCatching c) /\
  completes (Result_mapCatching this f) /\
  completes (Result_recoverCatching this f).
Proof. repeat split; total. Qed.

(** X18.  Apart from [throwOnFailure] and [getOrThrow], no method throws an
    error of its own: when the callbacks it is given return normally, so
    does the method, on every receiver and in every state. *)
Theorem no_exception_of_its_own (op : Op) (this : loc) :
  rethrows op = false ->
  op_callbacks completes op ->
  completes (run_op this op).
Proof.
  destruct op; cbn [rethrows op_callbacks run_op]; intros Hr H;
    try discriminate; try destruct H; total.
Qed.

Lemma no_exception_of_its_own_witness :
  completes (run_op 3 (op_fold (user1 (pure1 (fun v => v)))
                               (user1 (pure1 (fun _ => VNull))))).
Proof.
  apply (no_exception_of_its_own
           (op_fold (user1 (pure1 (fun v => v))) (user1 (pure1 (fun _ => VNull))))
           3); [reflexivity|].
  split; intros a st; by eexists _, _.
Defined.

(** ** No outcome holds [undefined] *)

Lemma keeps_ret {A} (a : A) : keeps_payloads (ret a).
Proof. by intros st H. Qed.

Lemma keeps_throw {A} (e : JsValue) : keeps_payloads (@throw A e).
Proof. by intros st H. Qed.

Lemma keeps_read {A} (f : list Obj -> A) : keeps_payloads (read f).
Proof. by intros st H. Qed.

Lemma keeps_log_call (who : Callee) (args : list JsValue) :
  keeps_payloads (log_call who args).
Proof. by intros st H. Qed.

Lemma keeps_bind {A B} (m : M A) (k : A -> M B) :
  keeps_payloads m -> (forall a, keeps_payloads (k a)) -> keeps_payloads (bind m k).
Proof.
  intros Hm Hk st H. unfold bind. specialize (Hm st H).
  destruct (m st) as [[a|e] st1]; cbn [snd] in *; [by apply Hk | exact Hm].
Qed.

Lemma keeps_try_catch {A} (body : M A) (handler : JsValue -> M A) :
  keeps_payloads body -> (forall e, keeps_payloads (handler e)) ->
  keeps_payloads (try_catch body handler).
Proof.
  intros Hm Hk st H. unfold try_catch. specialize (Hm st H).
  destruct (body st) as [[a|e] st1]; cbn [snd] in *; [exact Hm | by apply Hk].
Qed.

Lemma keeps_if {A} (b : bool) (m1 m2 : M A) :
  keeps_payloads m1 -> keeps_payloads m2 -> keeps_payloads (if b then m1 else m2).
Proof. by destruct b. Qed.

Lemma payloads_defined_snoc (h : list Obj) (o : Obj) :
  payloads_defined h ->
  (forall v, o = OResult v -> v <> VUndefined) ->
  payloads_defined (h ++ [o]).
Proof.
  intros H Ho l v Hl. apply lookup_snoc_inv in Hl as [Hl | [_ Hl]]; eauto.
Qed.

(** The default of its parameter is what keeps [undefined] out. *)
Lemma keeps_success (v : JsValue) : keeps_payloads (Result_success v).
Proof.
  intros st H. rewrite success_eq. cbn [snd heap].
  apply payloads_defined_snoc; [exact H|]. intros x [= <-]. by destruct v.
Qed.

Lemma keeps_failure (e : JsValue) : keeps_payloads (Result_failure e).
Proof.
  intros st H. rewrite failure_eq. cbn [snd heap].
  apply payloads_defined_snoc; [apply payloads_defined_snoc|]; try done.
  by intros x [= <-].
Qed.

Create HintDb js_keeps.
#[local] Hint Resolve keeps_ret keeps_throw keeps_read keeps_log_call
  keeps_bind keeps_try_catch keeps_if keeps_success keeps_failure : js_keeps.
#[local] Hint Unfold instanceof_Failure get_value get_exception call0 call1
  of_bool of_ref
  Result_isFailure Result_isSuccess Result_getOrNull Result_exceptionOrNull
  Result_throwOnFailure Result_getOrThrow
  Result_getOrElse Result_getOrDefault Result_fold
  Result_map runCatching Function_prototype_runCatching
  Result_mapCatching Result_recover Result_recoverCatching
  Result_onFailure Result_onSuccess : js_keeps.

Ltac keeps := intros; autounfold with js_keeps; eauto 20 with js_keeps.

Lemma run_op_keeps (this : loc) (op : Op) :
  op_callbacks (@keeps_payloads JsValue) op -> keeps_payloads (run_op this op).
Proof. destruct op; cbn [op_callbacks run_op]; intros H; try destruct H; keeps. Qed.

Lemma run_step_keeps (s : Step) :
  step_callbacks (@keeps_payloads JsValue) s -> keeps_payloads (run_step s).
Proof.
  destruct s; cbn [step_callbacks run_step]; intros H;
    auto using run_op_keeps; keeps.
Qed.

Lemma keeps_user_pure1 (f : JsValue -> JsValue) (a : JsValue) :
  keeps_payloads (user1 (pure1 f) a).
Proof. by intros st H. Qed.

Lemma keeps_user_rethrow (a : JsValue) : keeps_payloads (user1 rethrow a).
Proof. by intros st H. Qed.

Lemma keeps_set_message (l : loc) (m : string) :
  keeps_payloads (user0 (set_message l m)).
Proof.
  intros st H. unfold user0, set_message.
  destruct (heap st !! l) as [[e|v|m0|ps]|] eqn:E; cbn [snd heap]; try exact H.
  intros k v Hk. destruct (decide (k = l)) as [->|Hne].
  - rewrite list_lookup_insert_eq in Hk by (by eapply lookup_lt_Some).
    discriminate.
  - rewrite list_lookup_insert_ne in Hk by done. by eapply H.
Qed.

(** X19.  No outcome ever holds [undefined]: if that is so in a heap, it is
    so after any sequence of steps of a client (every method, the
    factories, both forms of [runCatching], code of the client) whose own
    code builds no such [Result], which the protected constructor forbids.
    So [getOrNull()] never returns [undefined]: a transform or computation
    that returned [undefined] is seen as [null]. *)
Theorem payloads_stay_defined (steps : list Step) (st : State) :
  payloads_defined (heap st) ->
  Forall (step_callbacks (@keeps_payloads JsValue)) steps ->
  payloads_defined (heap (run_steps steps st)) /\
  (forall l v, heap (run_steps steps st) !! l = Some (OResult v) ->
     fst (Result_getOrNull l (run_steps steps st)) <> Normal VUndefined).
Proof.
  intros H Hs.
  assert (Hfin : payloads_defined (heap (run_steps steps st))).
  { revert st H. induction Hs as [|s steps Hs _ IH]; intros st H; cbn [run_steps].
    - exact H.
    - apply IH. by apply run_step_keeps. }
  split; [exact Hfin|]. intros l v Hl. rewrite getOrNull_eq. cbn [fst].
  unfold field_value at 2. rewrite Hl.
  destruct (is_Failure_instance _ _); [discriminate|].
  intros [= ->]. by eapply Hfin.
Qed.

Lemma payloads_stay_defined_witness :
  payloads_defined (heap (run_steps sample_steps two_outcomes_state)).
Proof.
  apply (payloads_stay_defined sample_steps two_outcomes_state).
  - intros l v Hl.
    destruct l as [|[|[|[|l]]]]; cbn in Hl; try discriminate;
      injection Hl as <-; discriminate.
  - unfold sample_steps.
    repeat (apply Forall_cons; split);
      [ .. | apply Forall_nil ]; cbn [step_callbacks op_callbacks]; try split;
      auto using keeps_user_pure1, keeps_user_rethrow, keeps_set_message.
Defined.

(** ** [recover] where the error is truthy, and on a success *)

(** X20.  For every truthy error [e] (every [Error] object is one) and
    every function [g] of the caller, [recover(g)] on [failure(e)] is the
    outcome [success(g(e))], and throws what [g] throws. *)
Theorem recover_on_truthy_failure (g : UserFn1) (e : JsValue) (st : State) :
  truthy e = true ->
  recover_on_failure g e st.
Proof.
  intros He.
  destruct (failure_builds e st) as (r & st1 & Hr & Hf & _).
  exists r, st1. split; [exact Hr|].
  apply failure_outcome_heap in Hf as [Hi Hx].
  unfold same_outcome. rewrite recover_eq, Hi. cbv zeta. rewrite Hx, He.
  destruct st1 as [h cs]. js_unfold.
  destruct (g e h) as [[x|err] h1]; [|reflexivity].
  cbn [outcome_of]. f_equal. by apply observe_heap_only.
Qed.

Lemma recover_on_truthy_failure_witness :
  recover_on_failure (pure1 (fun _ => VNumber 7)) (VRef 1) two_outcomes_state.
Proof.
  apply (recover_on_truthy_failure (pure1 (fun _ => VNumber 7)) (VRef 1)
           two_outcomes_state).
  reflexivity.
Defined.

(** X21.  On a success outcome [recover] and [recoverCatching] return the
    receiver itself, leave the state and the log as they are, and do not
    call the transform. *)
Theorem recover_on_success (g : UserFn1) (st : State) (this : loc) (v : JsValue) :
  success_outcome st this v ->
  Result_recover this (user1 g) st = (Normal this, st) /\
  Result_recoverCatching this (user1 g) st = (Normal this, st).
Proof.
  intros [Hc _]%success_outcome_heap.
  by rewrite recover_eq, recoverCatching_eq, Hc.
Qed.

Lemma recover_on_success_witness :
  Result_recover 0 (user1 rethrow) two_outcomes_state = (Normal 0, two_outcomes_state) /\
  Result_recoverCatching 0 (user1 rethrow) two_outcomes_state
    = (Normal 0, two_outcomes_state).
Proof.
  apply (recover_on_success rethrow two_outcomes_state 0 (VNumber 1)).
  split; reflexivity.
Defined.
